(** * SmallVM core: object memory, data primitives, radio layer and host runtime

    A shallow embedding of the C and GP sources of the SmallVM / MicroBlocks
    core, and the properties of its specification checked against it.

    - [MemH]          the macros of mem.h that the C files use
    - [Mem]           src/vm/mem.c (current allocator)
    - [MemProto]      the earlier mem.c prototype (byte/word mix-up in newObj)
    - [Interp]        the state a primitive runs in, and [fail]
    - [DataPrims]     dataPrims.cpp (lists and strings)
    - [RadioPrims]    src/vm/radioPrims.c
    - [SmallRuntime]  src/ide/MicroBlocksRuntime.gp (host side)
    - [Inputs]        concrete states and inputs of the examples

    Machine words are 32-bit; they are represented as [Z] and every place
    where the C code can wrap is written out with [wrap32]. Object references
    are byte addresses, the store maps the address of an aligned word to its
    contents. *)

From Stdlib Require Import ZArith Lia List.
From stdpp Require Import base option list gmap strings.

Local Open Scope Z_scope.

(** ** The outcome of a call: it returns, or the VM halts in gpPanic *)

Inductive outcome (S A : Type) : Type :=
| Returns (a : A) (s : S)
| Halts (msg : string) (s : S).
Arguments Returns {S A} a s.
Arguments Halts {S A} msg s.


Definition final_state {S A} (o : outcome S A) : S :=
  match o with Returns _ s => s | Halts _ s => s end.

(** ** mem.h *)

Module MemH.

(** Cast to a C [int]: two's complement wrap-around to 32 bits. *)
Definition wrap32 (z : Z) : Z := (z + 2 ^ 31) mod 2 ^ 32 - 2 ^ 31.

(** Cast to [unsigned] / [uint32]. *)
Definition wrapU32 (z : Z) : Z := z mod 2 ^ 32.

(** Modelled from the spec: mem.h is not among the sources. The spec gives
    one header word per object ("header word, then N data words"). *)
Definition HEADER_WORDS : Z := 1.

Definition falseObj : Z := 4.
Definition trueObj : Z := 8.

(** Modelled from the spec: mem.h is not among the sources. Small integers
    carry a low tag bit: [int2obj n = (n << 1) | 1], [obj2int v] is the
    arithmetic shift right by one, [isInt v] tests the low bit. *)
Definition isInt (v : Z) : bool := Z.testbit v 0.
Definition int2obj (n : Z) : Z := wrap32 (Z.lor (Z.shiftl n 1) 1).
Definition obj2int (v : Z) : Z := Z.shiftr v 1.
Definition zeroObj : Z := int2obj 0.
Definition isBoolean (v : Z) : bool := (v =? trueObj) || (v =? falseObj).

(** Modelled from the spec: mem.h is not among the sources. The header word
    "encodes a class/type identifier and the number of following data words".
    The spec does not fix the bit layout; the class is kept in the low four
    bits and the word count above it, in an unsigned 32-bit word. *)
Definition HEADER (classID wordCount : Z) : Z :=
  wrapU32 (Z.lor (Z.shiftl wordCount 4) (Z.land classID 15)).
Definition headerWords (h : Z) : Z := Z.shiftr (wrapU32 h) 4.
Definition headerClass (h : Z) : Z := Z.land (wrapU32 h) 15.

(** Modelled from the spec: mem.h is not among the sources. Type tags of the
    recognised object types; only their being distinct matters. *)
Definition StringType : Z := 4.
Definition ByteArrayType : Z := 5.
Definition ListType : Z := 6.
Definition StringClass : Z := StringType.

(** Modelled from the spec: interp.h is not among the sources. The error
    codes are the numeric table of the spec; the codes the primitives use
    that the table lacks get numbers of their own. *)
Definition noError : Z := 0.
Definition insufficientMemoryError : Z := 10.
Definition needsListError : Z := 11.
Definition needsIntegerError : Z := 13.
Definition needsIntegerIndexError : Z := 17.
Definition indexOutOfRangeError : Z := 18.
Definition byteArrayStoreError : Z := 19.
Definition notEnoughArguments : Z := 27.

(** *** The store *)

Record heap : Type := mkHeap {
  memStart : Z;          (* OBJ memStart  *)
  freeStart : Z;         (* OBJ freeStart *)
  memEnd : Z;            (* OBJ memEnd    *)
  store : gmap Z Z;      (* aligned byte address -> word *)
}.

Definition load (m : gmap Z Z) (a : Z) : Z := default 0 (m !! a).

Definition setFree (f : Z) (h : heap) : heap :=
  mkHeap (memStart h) f (memEnd h) (store h).
Definition setStore (m : gmap Z Z) (h : heap) : heap :=
  mkHeap (memStart h) (freeStart h) (memEnd h) m.

(** [p + n] on an [OBJ] (that is [int *]) pointer. *)
Definition ptrAdd (p n : Z) : Z := p + 4 * n.

(** Byte access into the little-endian words of the store. *)
Definition loadByte (m : gmap Z Z) (a : Z) : Z :=
  Z.land (Z.shiftr (load m (a - a mod 4)) (8 * (a mod 4))) 255.

Definition storeByte (m : gmap Z Z) (a b : Z) : gmap Z Z :=
  let wa := a - a mod 4 in
  let sh := 8 * (a mod 4) in
  let old := wrapU32 (load m wa) in
  let cleared := Z.land old (Z.lxor (Z.ones 32) (Z.shiftl 255 sh)) in
  <[wa := wrap32 (Z.lor cleared (Z.shiftl (Z.land b 255) sh))]> m.

(** Header and field macros on an object reference. *)
Definition WORDS (m : gmap Z Z) (obj : Z) : Z := headerWords (load m obj).
Definition CLASS (m : gmap Z Z) (obj : Z) : Z := headerClass (load m obj).
Definition fieldAddr (obj i : Z) : Z := ptrAdd obj (HEADER_WORDS + i).
Definition FIELD (m : gmap Z Z) (obj i : Z) : Z := load m (fieldAddr obj i).
Definition setFIELD (obj i v : Z) (m : gmap Z Z) : gmap Z Z :=
  <[fieldAddr obj i := v]> m.

(** Modelled from the spec: mem.h is not among the sources. [IS_TYPE] holds
    of a heap reference (word-aligned, above the three singletons) whose
    header carries the tag; immediates and singletons have no header, and
    [objWords] is zero for them. *)
Definition isHeapRef (obj : Z) : bool :=
  negb (isInt obj) && (obj mod 4 =? 0) && (trueObj <? obj).
Definition IS_TYPE (m : gmap Z Z) (obj ty : Z) : bool :=
  isHeapRef obj && (CLASS m obj =? ty).
Definition objWords (m : gmap Z Z) (obj : Z) : Z :=
  if isHeapRef obj then WORDS m obj else 0.

End MemH.

(** ** src/vm/mem.c: the allocator *)

Module Mem.
Import MemH.

(** The body of [for (OBJ p = obj; p < freeStart; ) *p++ = (int) fill;]
    unrolled [n] times from [p]. *)
Fixpoint fillWords (n : nat) (p fill : Z) (m : gmap Z Z) : gmap Z Z :=
  match n with
  | O => m
  | S k => fillWords k (ptrAdd p 1) fill (<[p := fill]> m)
  end.

(** [malloc] hands back an address ([0] for NULL); [memInit] places the arena
    there, stepping over the three singleton addresses if need be. The
    table of globals is owned by the interpreter and not modelled. *)
Definition memInit (wordCount mallocResult : Z) (m : gmap Z Z) : outcome heap unit :=
  if mallocResult =? 0 then
    Halts "memInit failed; insufficient memory" (mkHeap 0 0 0 m)
  else
    let '(start, wc) :=
      if mallocResult <=? 8 then (mallocResult + 12, wordCount - 3)
      else (mallocResult, wordCount) in
    Returns tt (mkHeap start start (ptrAdd start wc) m).

Definition memClear (h : heap) : heap := setFree (memStart h) h.

(** The free pointer of a running VM is a word-aligned address above the
    three singletons. *)
Definition wellPlaced (h : heap) : Prop :=
  trueObj < freeStart h ∧ freeStart h mod 4 = 0.

(** [newObj]: the free pointer is advanced first, then compared with
    [memEnd]; on exhaustion [gpPanic] prints and loops forever. *)
Definition newObj (classID wordCount fill : Z) (h : heap) : outcome heap Z :=
  let obj := freeStart h in
  let h1 := setFree (ptrAdd (freeStart h) (HEADER_WORDS + wordCount)) h in
  if memEnd h1 <=? freeStart h1 then
    Halts "Out of memory!" h1
  else
    let m1 := fillWords (Z.to_nat (HEADER_WORDS + wordCount)) obj (wrap32 fill) (store h1) in
    let header := HEADER classID wordCount in
    Returns obj (setStore (<[obj := header]> m1) h1).

(** [*dst++ = *s++] over the bytes of [s]. *)
Fixpoint storeBytes (dst : Z) (bs : list Z) (m : gmap Z Z) : gmap Z Z :=
  match bs with
  | [] => m
  | b :: rest => storeBytes (dst + 1) rest (storeByte m dst b)
  end.

(** [newString(char *s)]: [s] is the C string without its terminator. The
    copy loop moves [strlen(s) + 1] bytes, the terminator included, and the
    statement after it writes one more zero byte. *)
Definition newString (s : list Z) (h : heap) : outcome heap Z :=
  let byteCount := Z.of_nat (length s) + 1 in
  let wordCount := (byteCount + 3) / 4 in
  match newObj StringClass wordCount 0 h with
  | Halts msg h' => Halts msg h'
  | Returns result h' =>
      let dst := fieldAddr result 0 in
      let m1 := storeBytes dst (s ++ [0]) (store h') in
      Returns result (setStore (storeByte m1 (dst + byteCount) 0) h')
  end.

(** The C string that starts at byte address [a]: the bytes before the first
    zero byte. The scan is cut after [fuel] bytes. *)
Fixpoint cstring (fuel : nat) (m : gmap Z Z) (a : Z) : list Z :=
  match fuel with
  | O => []
  | S k => let b := loadByte m a in
           if b =? 0 then [] else b :: cstring k m (a + 1)
  end.

(** [obj2str]: the string held by a String object, the empty string for any
    other value. The terminator of a well-formed String lies inside its data
    words, so the scan is cut at their end. *)
Definition obj2str (m : gmap Z Z) (obj : Z) : list Z :=
  if IS_TYPE m obj StringClass
  then cstring (Z.to_nat (4 * WORDS m obj)) m (fieldAddr obj 0)
  else [].

End Mem.

(** ** The earlier mem.c prototype *)

Module MemProto.
Import MemH.

Definition memInit (wordCount mallocResult : Z) (m : gmap Z Z) : outcome heap unit :=
  if mallocResult =? 0 then
    Halts "memInit failed; insufficient memory" (mkHeap 0 0 0 m)
  else
    let '(start, wc) :=
      if mallocResult <? 8 then (mallocResult + 8, wordCount - 2)
      else (mallocResult, wordCount) in
    Returns tt (mkHeap start start (ptrAdd start wc) m).

Definition memClear (h : heap) : heap := setFree (memStart h) h.

(** [newObj] of the prototype: the advance is divided by four (C division,
    truncating), and [panic] prints and exits. *)
Definition newObj (classID wordCount fill : Z) (h : heap) : outcome heap Z :=
  let obj := freeStart h in
  let h1 := setFree (ptrAdd (freeStart h) (Z.quot (HEADER_WORDS + wordCount) 4)) h in
  if memEnd h1 <=? freeStart h1 then
    Halts "Out of memory!" h1
  else
    let m1 := Mem.fillWords (Z.to_nat (Z.quot (HEADER_WORDS + wordCount) 4)) obj
                (wrap32 fill) (store h1) in
    let header := HEADER classID wordCount in
    Returns obj (setStore (<[obj := header]> m1) h1).

End MemProto.

(** ** interp.h: the state a primitive runs in *)

Module Interp.
Import MemH.

Record vm : Type := mkVM {
  vmHeap : heap;       (* the arena of mem.c *)
  errorCode : Z;       (* set by fail() *)
}.

(** A primitive is a state transformer that returns or halts the VM. *)
Definition M (A : Type) : Type := vm → outcome vm A.

#[export] Instance M_ret : MRet M := λ A a s, Returns a s.
#[export] Instance M_bind : MBind M := λ A B f c s,
  match c s with
  | Returns a s' => f a s'
  | Halts msg s' => Halts msg s'
  end.

(** Modelled from the spec: interp.c is not among the sources. [fail] records
    the error code on the running task; its value, which the primitives
    return, is the false object. *)
Definition fail (code : Z) : M Z := λ s, Returns falseObj (mkVM (vmHeap s) code).

Definition getMem : M (gmap Z Z) := λ s, Returns (store (vmHeap s)) s.
Definition modifyMem (f : gmap Z Z → gmap Z Z) : M unit :=
  λ s, Returns tt (mkVM (setStore (f (store (vmHeap s))) (vmHeap s)) (errorCode s)).
Definition liftHeap {A} (f : heap → outcome heap A) : M A := λ s,
  match f (vmHeap s) with
  | Returns a h => Returns a (mkVM h (errorCode s))
  | Halts msg h => Halts msg (mkVM h (errorCode s))
  end.

(** [for (i = from; i < from + n; i++) body] on an accumulator. *)
Fixpoint forLoop {T} (n : nat) (i : Z) (body : Z → T → T) (acc : T) : T :=
  match n with
  | O => acc
  | S k => forLoop k (i + 1) body (body i acc)
  end.

(** [args[i]] with [argCount = length args]; a read past [argCount] finds
    whatever the operand stack holds there, taken to be 0. *)
Definition argCount (args : list Z) : Z := Z.of_nat (length args).
Definition arg (args : list Z) (i : nat) : Z := nth i args 0.

Definition bytesOf (s : string) : list Z :=
  map (λ c, Z.of_N (Ascii.N_of_ascii c)) (String.list_ascii_of_string s).

End Interp.

(** ** dataPrims.cpp: list and string primitives *)

Module DataPrims.
Import MemH Interp.

Definition stringSize (m : gmap Z Z) (obj : Z) : Z :=
  let wordCount := objWords m obj in
  if wordCount =? 0 then 0
  else
    let s := fieldAddr obj 0 in
    let byteCount := 4 * (wordCount - 1) in
    (* scan the last word for the null terminator byte *)
    if loadByte m (s + byteCount) =? 0 then byteCount
    else if loadByte m (s + byteCount + 1) =? 0 then byteCount + 1
    else if loadByte m (s + byteCount + 2) =? 0 then byteCount + 2
    else if loadByte m (s + byteCount + 3) =? 0 then byteCount + 3
    else byteCount + 4.

(** [matches(s, obj)]: [obj] is a String whose bytes are those of [s]. *)
Definition matches (s : string) (m : gmap Z Z) (obj : Z) : bool :=
  IS_TYPE m obj StringType && bool_decide (bytesOf s = Mem.obj2str m obj).

(** A [char *] into a string is the list of bytes from it to the terminator;
    the empty list is the pointer at the null byte. [char] is unsigned on
    the supported (ARM) targets, so [*s < 128] tests the top bit. *)
Fixpoint skipContinuation (s : list Z) : list Z :=
  match s with
  | b :: rest => if Z.land b 192 =? 128 then skipContinuation rest else s
  | [] => []
  end.

Definition nextUTF8 (s : list Z) : list Z :=
  match s with
  | [] => []                                   (* end of string *)
  | b :: rest =>
      if b <? 128 then rest                    (* single-byte character *)
      else
        let s1 := if Z.land b 192 =? 192 then rest else s in
        skipContinuation s1                    (* skip continuation bytes *)
  end.

(** [while ( *s ) { s = nextUTF8(s); count++; }], at most [fuel] rounds. *)
Fixpoint countUTF8_loop (fuel : nat) (s : list Z) (count : Z) : Z :=
  match fuel with
  | O => count
  | S k => match s with
           | [] => count
           | _ => countUTF8_loop k (nextUTF8 s) (count + 1)
           end
  end.

(** Every round of the loop consumes a byte, so [length s] rounds suffice. *)
Definition countUTF8 (s : list Z) : Z := countUTF8_loop (length s) s 0.

(** [newObj] of mem.c on the arena of the VM. *)
Definition allocObj (classID wordCount fill : Z) : M Z :=
  liftHeap (Mem.newObj classID wordCount fill).

(** [memcpy(dst, src, n)] between two places of the store. *)
Fixpoint copyBytes (n : nat) (dst src : Z) (m : gmap Z Z) : gmap Z Z :=
  match n with
  | O => m
  | S k => copyBytes k (dst + 1) (src + 1) (storeByte m dst (loadByte m src))
  end.

(** Modelled from the spec: [newStringFromBytes] is defined in a mem.c that
    is not among the sources. It makes a String of [byteCount] bytes read
    from [src], with room for the terminator (the word count is the one
    radioPrims.c writes into [receivedString]). *)
Definition newStringFromBytes (src byteCount : Z) : M Z :=
  result ← allocObj StringType ((byteCount + 4) / 4) 0;
  if result =? 0 then mret result
  else modifyMem (copyBytes (Z.to_nat byteCount) (fieldAddr result 0) src);;
       mret result.

Definition primNewArray (args : list Z) : M Z :=
  let minCapacity := 2 in
  let capacity :=
    if (0 <? argCount args) && isInt (arg args 0)
    then obj2int (arg args 0) else minCapacity in
  let capacity := if capacity <? minCapacity then minCapacity else capacity in
  result ← allocObj ListType (capacity + 1) (int2obj 0);   (* filled with zeros *)
  (if result =? 0 then mret tt
   else modifyMem (setFIELD result 0 (int2obj capacity)));;
  mret result.

(** The count of a List as the primitives read it: field 0, clamped to the
    capacity. *)
Definition clampedCount (m : gmap Z Z) (obj : Z) : Z :=
  let count := obj2int (FIELD m obj 0) in
  if WORDS m obj <=? count then WORDS m obj - 1 else count.

Definition primArrayFill (args : list Z) : M Z :=
  let obj := arg args 0 in
  let value := arg args 1 in
  m ← getMem;
  if IS_TYPE m obj ListType then
    let count := clampedCount m obj in
    modifyMem (forLoop (Z.to_nat count) 0 (λ i, setFIELD obj (i + 1) value));;
    let end_ := WORDS m obj + HEADER_WORDS in
    modifyMem (forLoop (Z.to_nat (end_ - (HEADER_WORDS + 1))) (HEADER_WORDS + 1)
                 (λ i, insert (ptrAdd obj i) value));;
    mret falseObj
  else if IS_TYPE m obj ByteArrayType then
    if negb (isInt value) then fail byteArrayStoreError
    else
      let byteValue := wrapU32 (obj2int value) in
      if 255 <? byteValue then fail byteArrayStoreError
      else
        let dst := fieldAddr obj 0 in
        modifyMem (forLoop (Z.to_nat (4 * WORDS m obj)) dst
                     (λ a m', storeByte m' a byteValue));;
        mret falseObj
  else
    fail needsListError;; mret falseObj.

(** [primArrayAt]. [rnd] is what [rand()] returns; [junk] is the content of
    the local [count] when no branch has assigned it. *)
Definition primArrayAt (rnd junk : Z) (args : list Z) : M Z :=
  let obj := arg args 1 in
  m ← getMem;
  let count :=
    if IS_TYPE m obj ListType then clampedCount m obj
    else if IS_TYPE m obj StringType then stringSize m obj
    else if IS_TYPE m obj ByteArrayType then 4 * WORDS m obj
    else junk in
  let fetch (i : Z) : M Z :=
    if IS_TYPE m obj ListType then mret (FIELD m obj i)
    else if IS_TYPE m obj StringType then
      newStringFromBytes (fieldAddr obj 0 + i - 1) 1
    else if IS_TYPE m obj ByteArrayType then
      mret (int2obj (loadByte m (fieldAddr obj 0 + (i - 1))))
    else fail needsListError in
  if isInt (arg args 0) then
    let i := obj2int (arg args 0) in
    if (i <? 1) || (count <? i) then fail indexOutOfRangeError else fetch i
  else if matches "random" m (arg args 0) then fetch (Z.rem rnd count + 1)
  else if matches "last" m (arg args 0) then fetch count
  else fail needsIntegerIndexError.

(** [primArrayAtPut]. The ByteArray branch declares a second [byteValue]
    that shadows the outer one, so the byte later stored is the outer,
    never assigned local: [junk]. *)
Definition primArrayAtPut (junk : Z) (args : list Z) : M Z :=
  let obj := arg args 1 in
  let value := arg args 2 in
  m ← getMem;
  let isList := IS_TYPE m obj ListType in
  let isBytes := IS_TYPE m obj ByteArrayType in
  let continue (count : Z) : M Z :=
    if matches "all" m (arg args 0) then
      (if isList then
         modifyMem (forLoop (Z.to_nat count) 1 (λ i, setFIELD obj i value))
       else if isBytes then
         modifyMem (forLoop (Z.to_nat count) 1
                      (λ i m', storeByte m' (fieldAddr obj 0 + (i - 1)) junk))
       else mret tt);;
      mret falseObj
    else
      let put (i : Z) : M Z :=
        (if isList then modifyMem (setFIELD obj i value)
         else if isBytes then
           modifyMem (λ m', storeByte m' (fieldAddr obj 0 + (i - 1)) junk)
         else mret tt);;
        mret falseObj in
      if isInt (arg args 0) then
        let i := obj2int (arg args 0) in
        if (i <? 1) || (count <? i) then fail indexOutOfRangeError else put i
      else if matches "last" m (arg args 0) then put count
      else fail needsIntegerIndexError in
  if isList then continue (clampedCount m obj)
  else if isBytes then
    if negb (isInt value) then fail byteArrayStoreError
    else if 255 <? wrapU32 (obj2int value) then fail byteArrayStoreError
    else continue (4 * WORDS m obj)
  else fail needsListError.

Definition primLength (args : list Z) : M Z :=
  let obj := arg args 0 in
  m ← getMem;
  if IS_TYPE m obj ListType then mret (FIELD m obj 0)   (* actual count stored in first field *)
  else if IS_TYPE m obj ByteArrayType then mret (int2obj (4 * WORDS m obj))
  else if IS_TYPE m obj StringType then mret (int2obj (countUTF8 (Mem.obj2str m obj)))
  else fail needsListError.

(** [for (int i = 0; i < argCount; i++) FIELD(result, i + 1) = args[i];] *)
Fixpoint storeArgs (result i : Z) (args : list Z) (m : gmap Z Z) : gmap Z Z :=
  match args with
  | [] => m
  | a :: rest => storeArgs result (i + 1) rest (setFIELD result (i + 1) a m)
  end.

Definition primMakeList (args : list Z) : M Z :=
  result ← allocObj ListType (argCount args + 1) falseObj;
  if result =? 0 then mret result   (* allocation failed *)
  else
    modifyMem (setFIELD result 0 (int2obj (argCount args)));;
    modifyMem (storeArgs result 0 args);;
    mret result.

Definition primListDelete (args : list Z) : M Z :=
  if argCount args <? 2 then fail notEnoughArguments
  else
    m ← getMem;
    if negb (IS_TYPE m (arg args 1) ListType) then fail needsListError
    else
      let list := arg args 1 in
      let count := clampedCount m list in
      if matches "all" m (arg args 0) then
        modifyMem (forLoop (Z.to_nat (count + 1)) 0 (λ i, setFIELD list i zeroObj));;
        mret falseObj
      else if matches "last" m (arg args 0) then
        (if count =? 0 then mret tt
         else
           modifyMem (setFIELD list count zeroObj);;
           modifyMem (setFIELD list 0 (int2obj (count - 1))));;
        mret falseObj
      else if negb (isInt (arg args 0)) then fail needsIntegerError
      else
        let i := obj2int (arg args 0) in
        if (i <? 1) || (count <? i) then fail indexOutOfRangeError
        else
          modifyMem (forLoop (Z.to_nat (count - i)) i
                       (λ j m', setFIELD list j (FIELD m' list (j + 1)) m'));;
          modifyMem (setFIELD list count zeroObj);;   (* clear final field *)
          modifyMem (setFIELD list 0 (int2obj (count - 1)));;
          mret falseObj.

(** The invariant of a growable List: the count lies within the capacity
    ([WORDS - 1] items) and every slot above the count holds zero. *)
Definition listCount (m : gmap Z Z) (obj : Z) : Z := obj2int (FIELD m obj 0).
Definition listCapacity (m : gmap Z Z) (obj : Z) : Z := WORDS m obj - 1.

Definition listInvariant (m : gmap Z Z) (obj : Z) : Prop :=
  IS_TYPE m obj ListType = true ∧
  0 ≤ listCount m obj ≤ listCapacity m obj ∧
  ∀ i, listCount m obj < i ≤ listCapacity m obj → FIELD m obj i = zeroObj.

(** The same invariant as a check that runs. *)
Definition listInvariantb (m : gmap Z Z) (obj : Z) : bool :=
  IS_TYPE m obj ListType &&
  (0 <=? listCount m obj) && (listCount m obj <=? listCapacity m obj) &&
  forallb (λ k, FIELD m obj (listCount m obj + 1 + Z.of_nat k) =? zeroObj)
          (seq 0 (Z.to_nat (listCapacity m obj - listCount m obj))).

(** One encoded codepoint: an ASCII byte, or a lead byte (top bits 11) with
    the continuation bytes (top bits 10) that follow it. *)
Definition isContinuationByte (b : Z) : bool := Z.land b 192 =? 128.
Definition encodedChar (c : list Z) : Prop :=
  match c with
  | [] => False
  | b :: rest =>
      (0 < b < 128 ∧ rest = []) ∨
      (128 ≤ b ∧ Z.land b 192 = 192 ∧ Forall (λ x, isContinuationByte x = true) rest)
  end.
(** A string that is empty or starts with a byte that begins a codepoint. *)
Definition startsChar (s : list Z) : Prop :=
  match s with
  | [] => True
  | b :: _ => isContinuationByte b = false
  end.

End DataPrims.

(** ** src/vm/radioPrims.c: the micro:bit radio *)

Module RadioPrims.
Import MemH Interp.


Definition PACKET_SIZE : Z := 32.

(** Bit-field constants of the Nordic nrf51_bitfields.h header. *)
Definition RADIO_MODE_MODE_Nrf_1Mbit : Z := 0.
Definition RADIO_CRCCNF_LEN_Two : Z := 2.
Definition RADIO_SHORTS_ADDRESS_RSSISTART_Msk : Z := 16.

(** A static string object: [struct { uint32 header; char body[n]; }]. *)
Record staticString : Type := mkStatic {
  header : Z;
  body : list Z;
}.

(** What the radio hardware is doing. *)
Inductive radioMode : Type := RadioDisabled | RadioRx | RadioTx.

(** The file's static variables, the memory-mapped registers of NRF_RADIO
    and NRF_CLOCK (by name), and the interrupt enable bit of the NVIC. *)
Record radio : Type := mkRadio {
  radioSignalStrength : Z;
  receivedMessageType : Z;
  receivedInteger : Z;
  receivedString : staticString;
  messageTypeString : staticString;
  receiveBuffer : list Z;          (* MAX_PACKETS * PACKET_SIZE bytes *)
  radioInitialized : bool;
  receivedPacketCount : Z;
  packetIndex : Z;
  regs : gmap string Z;
  mode : radioMode;
  irqEnabled : bool;
}.

Definition initialRadio : radio :=
  mkRadio (-999) (-1) 0 (mkStatic 0 (replicate 32 0)) (mkStatic 0 (replicate 20 0))
          (replicate 128 0) false 0 0 ∅ RadioDisabled false.

Definition setReg (name : string) (v : Z) (r : radio) : radio :=
  mkRadio (radioSignalStrength r) (receivedMessageType r) (receivedInteger r)
          (receivedString r) (messageTypeString r) (receiveBuffer r)
          (radioInitialized r) (receivedPacketCount r) (packetIndex r)
          (<[name := wrapU32 v]> (regs r)) (mode r) (irqEnabled r).
Definition getReg (name : string) (r : radio) : Z := default 0 (regs r !! name).

Definition setMode (md : radioMode) (irq : bool) (r : radio) : radio :=
  mkRadio (radioSignalStrength r) (receivedMessageType r) (receivedInteger r)
          (receivedString r) (messageTypeString r) (receiveBuffer r)
          (radioInitialized r) (receivedPacketCount r) (packetIndex r)
          (regs r) md irq.

Definition setInitialized (b : bool) (r : radio) : radio :=
  mkRadio (radioSignalStrength r) (receivedMessageType r) (receivedInteger r)
          (receivedString r) (messageTypeString r) (receiveBuffer r)
          b (receivedPacketCount r) (packetIndex r)
          (regs r) (mode r) (irqEnabled r).



(** The busy-wait loops spin until the hardware raises the event; the
    hardware's answer to the task is written in their place. *)
Definition startReceiving (r : radio) : radio :=
  let r := setReg "EVENTS_READY" 0 r in
  let r := setReg "EVENTS_READY" 1 (setReg "TASKS_RXEN" 1 r) in
  let r := setReg "EVENTS_END" 0 r in
  let r := setReg "TASKS_START" 1 r in
  setMode RadioRx true r.

Definition disableRadio (r : radio) : radio :=
  let r := setMode (mode r) false r in
  let r := setReg "EVENTS_DISABLED" 0 r in
  let r := setReg "EVENTS_DISABLED" 1 (setReg "TASKS_DISABLE" 1 r) in
  setMode RadioDisabled false r.

Definition initializeRadio (r : radio) : radio :=
  if radioInitialized r then r
  else
    let r := setReg "EVENTS_HFCLKSTARTED" 0 r in
    let r := setReg "EVENTS_HFCLKSTARTED" 1 (setReg "TASKS_HFCLKSTART" 1 r) in
    let r := setReg "TXPOWER" 0 r in
    let r := setReg "FREQUENCY" 7 r in
    let r := setReg "MODE" RADIO_MODE_MODE_Nrf_1Mbit r in
    let r := setReg "BASE0" 1969383796 r in        (* 0x75626974, "uBit" *)
    let r := setReg "PREFIX0" 0 r in               (* default to group 0 *)
    let r := setReg "TXADDRESS" 0 r in
    let r := setReg "RXADDRESSES" 1 r in
    let r := setReg "PCNF0" 8 r in
    let r := setReg "PCNF1" (Z.lor 33816576 PACKET_SIZE) r in   (* 0x02040000 *)
    let r := setReg "CRCCNF" RADIO_CRCCNF_LEN_Two r in
    let r := setReg "CRCINIT" 65535 r in
    let r := setReg "CRCPOLY" 69665 r in           (* 0x11021 *)
    let r := setReg "DATAWHITEIV" 24 r in          (* 0x18 *)
    let r := setReg "INTENSET" 8 r in
    let r := setReg "SHORTS"
               (Z.lor (getReg "SHORTS" r) RADIO_SHORTS_ADDRESS_RSSISTART_Msk) r in
    let r := setReg "PACKETPTR" 0 r in             (* receiveBuffer *)
    let r := startReceiving r in
    setInitialized true r.

Definition setGroup (groupID : Z) (r : radio) : radio :=
  if (groupID <? 0) || (255 <? groupID) then r
  else
    let r := if radioInitialized r then r else initializeRadio r in
    setReg "PREFIX0" groupID r.

Definition powerLevels : list Z := [-30; -20; -16; -12; -8; -4; 0; 4].

Definition setPower (level : Z) (r : radio) : radio :=
  if (level <? 0) || (7 <? level) then r
  else
    let r := if radioInitialized r then r else initializeRadio r in
    setReg "TXPOWER" (nth (Z.to_nat level) powerLevels 0) r.

Definition setChannel (channel : Z) (r : radio) : radio :=
  if (channel <? 0) || (83 <? channel) then r
  else
    let r := if radioInitialized r then r else initializeRadio r in
    let r := disableRadio r in     (* must turn off radio to change channel *)
    let r := setReg "FREQUENCY" channel r in
    startReceiving r.


Section ReceiveMakeCode.

(** [(int) rint(dbl)] of the float64 whose eight little-endian bytes are given. *)
Variable rintOfBytes : list Z → Z.
(** The bytes that lie on the stack after the 32-byte local [packet]. *)
Variable stackAfterPacket : Z → Z.






End ReceiveMakeCode.

(** The state of a device: the VM with its arena, and the radio. *)
Record device : Type := mkDevice {
  dVM : vm;
  dRadio : radio;
}.

Definition onRadio (f : radio → radio) (d : device) : device :=
  mkDevice (dVM d) (f (dRadio d)).

(** The file compiles its primitives for the micro:bit and stubs for every
    other board. *)
Inductive board : Type := MicroBit | OtherBoard.

(** A primitive whose body ends without a [return] hands back no defined
    value: [None]. *)
Definition primSetChannel (b : board) (args : list Z) (d : device) : option Z * device :=
  match b with
  | MicroBit =>
      if (0 <? argCount args) && isInt (arg args 0)
      then (None, onRadio (setChannel (obj2int (arg args 0))) d)
      else (None, d)
  | OtherBoard => (Some falseObj, d)
  end.

Definition primSetGroup (b : board) (args : list Z) (d : device) : option Z * device :=
  match b with
  | MicroBit =>
      if (0 <? argCount args) && isInt (arg args 0)
      then (None, onRadio (setGroup (obj2int (arg args 0))) d)
      else (None, d)
  | OtherBoard => (Some falseObj, d)
  end.

Definition primSetPower (b : board) (args : list Z) (d : device) : option Z * device :=
  match b with
  | MicroBit =>
      if (0 <? argCount args) && isInt (arg args 0)
      then (None, onRadio (setPower (obj2int (arg args 0))) d)
      else (None, d)
  | OtherBoard => (Some falseObj, d)
  end.


End RadioPrims.

(** ** src/ide/MicroBlocksRuntime.gp: the host side *)

Module SmallRuntime.

(** A block of the editor is known by its identity only. *)
Definition block : Type := nat.

(** The serial port primitive hands back a port object; what matters of it
    is whether it is open. *)
Record serialPort : Type := mkPort { isOpenSerialPort : bool }.

(** The instance variables of class SmallRuntime that the protocol code
    uses, the bytes written to the serial port and the messages handed to
    [handleMessage]. A [nil] instance variable is [None]; [recvBuf] is
    [BinaryData], its [nil] and its empty value are both the empty list. *)
Record runtime : Type := mkRuntime {
  chunkIDs : option (gmap block (Z * block));   (* block -> <id> <last expression> *)
  chunkRunning : option (list bool);
  portName : option string;
  port : option serialPort;
  pingSentMSecs : option Z;
  lastPingRecvMSecs : option Z;
  recvBuf : list Z;
  written : list (list Z);      (* writeSerialPort, oldest first *)
  dispatched : list (list Z);   (* handleMessage, oldest first *)
}.

Definition newRuntime : runtime :=
  mkRuntime None None None None None None [] [] [].

Definition setChunkIDs (c : option (gmap block (Z * block))) (rt : runtime) : runtime :=
  mkRuntime c (chunkRunning rt) (portName rt) (port rt) (pingSentMSecs rt)
            (lastPingRecvMSecs rt) (recvBuf rt) (written rt) (dispatched rt).
Definition setChunkRunning (c : option (list bool)) (rt : runtime) : runtime :=
  mkRuntime (chunkIDs rt) c (portName rt) (port rt) (pingSentMSecs rt)
            (lastPingRecvMSecs rt) (recvBuf rt) (written rt) (dispatched rt).
Definition setPortVar (p : option serialPort) (rt : runtime) : runtime :=
  mkRuntime (chunkIDs rt) (chunkRunning rt) (portName rt) p (pingSentMSecs rt)
            (lastPingRecvMSecs rt) (recvBuf rt) (written rt) (dispatched rt).
Definition setPingSent (t : option Z) (rt : runtime) : runtime :=
  mkRuntime (chunkIDs rt) (chunkRunning rt) (portName rt) (port rt) t
            (lastPingRecvMSecs rt) (recvBuf rt) (written rt) (dispatched rt).
Definition setLastPingRecv (t : option Z) (rt : runtime) : runtime :=
  mkRuntime (chunkIDs rt) (chunkRunning rt) (portName rt) (port rt) (pingSentMSecs rt)
            t (recvBuf rt) (written rt) (dispatched rt).
Definition setRecvBuf (b : list Z) (rt : runtime) : runtime :=
  mkRuntime (chunkIDs rt) (chunkRunning rt) (portName rt) (port rt) (pingSentMSecs rt)
            (lastPingRecvMSecs rt) b (written rt) (dispatched rt).
Definition addWritten (msg : list Z) (rt : runtime) : runtime :=
  mkRuntime (chunkIDs rt) (chunkRunning rt) (portName rt) (port rt) (pingSentMSecs rt)
            (lastPingRecvMSecs rt) (recvBuf rt) (written rt ++ [msg]) (dispatched rt).
Definition addDispatched (msg : list Z) (rt : runtime) : runtime :=
  mkRuntime (chunkIDs rt) (chunkRunning rt) (portName rt) (port rt) (pingSentMSecs rt)
            (lastPingRecvMSecs rt) (recvBuf rt) (written rt) (dispatched rt ++ [msg]).

(** *** Message names *)

Definition msgDict : gmap string Z :=
  list_to_map
    [("chunkCodeMsg", 1); ("deleteChunkMsg", 2); ("startChunkMsg", 3);
     ("stopChunkMsg", 4); ("startAllMsg", 5); ("stopAllMsg", 6);
     ("getVarMsg", 7); ("setVarMsg", 8); ("deleteVarMsg", 10);
     ("deleteCommentMsg", 11); ("getVersionMsg", 12); ("getAllCodeMsg", 13);
     ("deleteAllCodeMsg", 14); ("systemResetMsg", 15); ("taskStartedMsg", 16);
     ("taskDoneMsg", 17); ("taskReturnedValueMsg", 18); ("taskErrorMsg", 19);
     ("outputValueMsg", 20); ("varValueMsg", 21); ("versionMsg", 22);
     ("pingMsg", 26); ("broadcastMsg", 27); ("chunkAttributeMsg", 28);
     ("varNameMsg", 29); ("commentMsg", 30); ("commentPositionMsg", 31)].

(** [error 'Unknown message:' msgName] stops the calling method: [None]. *)
Definition msgNameToID (msgName : string) : option Z := msgDict !! msgName.

(** *** Sending *)

Definition portIsOpen (rt : runtime) : bool :=
  match port rt with
  | Some p => isOpenSerialPort p
  | None => false
  end.

(** [openSerialPort] is a primitive of the host platform; [opened] is the
    port object it hands back, or nil. *)
Definition ensurePortOpen (opened : option serialPort) (rt : runtime) : runtime :=
  if portIsOpen rt then rt
  else match portName rt with
       | Some _ => setPortVar opened rt
       | None => rt
       end.

(** The bytes [sendMsg] puts on the wire. *)
Definition encodeMsg (msgID chunkID : Z) (byteList : option (list Z)) : list Z :=
  match byteList with
  | None => [250; msgID; chunkID]                       (* short message *)
  | Some bytes =>                                       (* long message *)
      let byteCount := Z.of_nat (length bytes) + 1 in
      [251; msgID; chunkID; Z.land byteCount 255; Z.land (Z.shiftr byteCount 8) 255]
        ++ bytes
        ++ [254]   (* terminator byte (helps board detect dropped bytes) *)
  end.

(** [sendMsg]; a write to a port that is nil or closed puts nothing on the
    wire. *)
Definition sendMsg (opened : option serialPort) (msgName : string)
    (chunkID : option Z) (byteList : option (list Z)) (rt : runtime) : option runtime :=
  let chunkID := default 0 chunkID in
  msgID ← msgNameToID msgName;
  let msg := encodeMsg msgID chunkID byteList in
  let rt := ensurePortOpen opened rt in
  Some (if portIsOpen rt then addWritten msg rt else rt).

(** *** Chunk IDs *)

Definition chunkIdFor (aBlock : block) (rt : runtime) : Z * runtime :=
  let ids := default ∅ (chunkIDs rt) in
  match ids !! aBlock with
  | Some entry => (entry.1, setChunkIDs (Some ids) rt)
  | None =>
      let id := Z.of_nat (size ids) in
      let entry := (id, aBlock) in               (* block -> <id> <last expression> *)
      (entry.1, setChunkIDs (Some (<[aBlock := entry]> ids)) rt)
  end.

Definition lookupChunkID (aBlock : block) (rt : runtime) : option Z :=
  ids ← chunkIDs rt;
  entry ← ids !! aBlock;
  Some entry.1.

Definition deleteChunkForBlock (opened : option serialPort) (aBlock : block)
    (rt : runtime) : option runtime :=
  let ids := default ∅ (chunkIDs rt) in
  let rt := setChunkIDs (Some ids) rt in
  match ids !! aBlock with
  | Some entry =>
      let rt := setChunkIDs (Some (delete aBlock ids)) rt in
      sendMsg opened "deleteChunkMsg" (Some entry.1) None rt
  | None => Some rt
  end.

Definition allStopped (rt : runtime) : runtime :=
  setChunkRunning (Some (replicate 256 false)) rt.   (* clear all running flags *)

Definition sendStopAll (opened : option serialPort) (rt : runtime) : option runtime :=
  rt ← sendMsg opened "stopAllMsg" None None rt;
  Some (allStopped rt).

(** [resetBoard], up to its [return]. *)
Definition resetBoard (opened : option serialPort) (rt : runtime) : option runtime :=
  rt ← sendStopAll opened rt;
  rt ← sendMsg opened "deleteAllCodeMsg" None None rt;   (* delete all code from board *)
  rt ← sendMsg opened "systemResetMsg" None None rt;     (* send the reset message *)
  Some (setChunkIDs (Some ∅) rt).                        (* start over *)

(** *** Liveness *)

(** [connectionStatus]; [t1], [t2] and [t3] are what the three calls of
    [msecsSinceStart] return, in order. *)
Definition connectionStatus (opened : option serialPort) (t1 t2 t3 : Z)
    (rt : runtime) : option (string * runtime) :=
  let pingSendInterval := 2000 in   (* msecs between pings *)
  let rt := setPingSent (Some (default 0 (pingSentMSecs rt))) rt in
  let rt := setLastPingRecv (Some (default 0 (lastPingRecvMSecs rt))) rt in
  if negb (portIsOpen rt) then
    Some ("not connected", setPortVar None rt)
  else
    rt ← (if pingSendInterval <? t1 - default 0 (pingSentMSecs rt)
          then rt' ← sendMsg opened "pingMsg" None None rt;
               Some (setPingSent (Some t2) rt')
          else Some rt);
    let msecsSinceLastPing := t3 - default 0 (lastPingRecvMSecs rt) in
    if msecsSinceLastPing <? pingSendInterval + 200
    then Some ("connected", rt)
    else Some ("board not responding", rt).

(** *** Receiving *)

(** [byteAt buf i] and [copyFromTo buf i j], both 1-based. *)
Definition byteAt (buf : list Z) (i : nat) : Z := nth (i - 1) buf 0.
Definition copyFromTo (buf : list Z) (i j : nat) : list Z :=
  take (j + 1 - i) (drop (i - 1) buf).
Definition copyFrom (buf : list Z) (i : nat) : list Z := drop (i - 1) buf.

Definition updateRunning (chunkID : Z) (runFlag : bool) (rt : runtime) : runtime :=
  let flags := default (replicate 256 false) (chunkRunning rt) in
  setChunkRunning (Some (<[Z.to_nat chunkID := runFlag]> flags)) rt.

(** [handleMessage]: the message is recorded as dispatched; the effects on
    the runtime's own variables follow the opcode. Drawing on the screen
    (hints, highlights, printing) is not modelled. [now] is [msecsSinceStart]. *)
Definition handleMessage (now : Z) (msg : list Z) (rt : runtime) : runtime :=
  let rt := addDispatched msg rt in
  let op := byteAt msg 2 in
  if op =? 16 then updateRunning (byteAt msg 3) true rt
  else if op =? 17 then updateRunning (byteAt msg 3) false rt
  else if op =? 18 then updateRunning (byteAt msg 3) false rt
  else if op =? 19 then updateRunning (byteAt msg 3) false rt
  else if op =? 26 then setLastPingRecv (Some now) rt
  else rt.

(** The length field of a long frame as the receiver reads it:
    [((byteAt recvBuf 5) << 8) | (byteAt recvBuf 4)]. *)
Definition lengthField (buf : list Z) : Z :=
  Z.lor (Z.shiftl (byteAt buf 5) 8) (byteAt buf 4).

(** [processMessages2]; [s] is what [readSerialPort] hands back. *)
Definition processMessages2 (now : Z) (s : option (list Z)) (rt : runtime) : runtime :=
  (* Read any available bytes and append to recvBuf *)
  let rt := match s with
            | Some bytes => setRecvBuf (recvBuf rt ++ bytes) rt
            | None => rt
            end in
  let buf := recvBuf rt in
  if (length buf <? 3)%nat then rt    (* incomplete message *)
  else
    (* Parse and dispatch messages *)
    let firstByte := byteAt buf 1 in
    if firstByte =? 250 then          (* short message *)
      setRecvBuf (copyFrom buf 4) (handleMessage now (copyFromTo buf 1 3) rt)
    else if firstByte =? 251 then     (* long message *)
      if (length buf <? 5)%nat then rt   (* incomplete length field *)
      else
        let bodyBytes := lengthField buf in
        if Z.of_nat (length buf) <? 5 + bodyBytes then rt   (* incomplete body *)
        else
          setRecvBuf (copyFrom buf (Z.to_nat (bodyBytes + 6)))
            (handleMessage now (copyFromTo buf 1 (Z.to_nat (bodyBytes + 5))) rt)
    else
      setRecvBuf [] rt.               (* discard *)

(** [processMessages]: twenty rounds; [reads k] is what the serial port
    hands back in round [k]. *)
Fixpoint processRounds (n k : nat) (now : Z) (reads : nat → option (list Z))
    (rt : runtime) : runtime :=
  match n with
  | O => rt
  | S n' => processRounds n' (S k) now reads (processMessages2 now (reads k) rt)
  end.

Definition processMessages (now : Z) (reads : nat → option (list Z)) (rt : runtime) : runtime :=
  if negb (portIsOpen rt) then rt
  else processRounds 20 0 now reads rt.

(** *** A wire message and how the receiver reads one back *)

Record wireMsg : Type := mkMsg {
  opcode : Z;
  chunkID : Z;
  msgBody : option (list Z);   (* None: short frame *)
}.

Definition encode (msg : wireMsg) : list Z :=
  encodeMsg (opcode msg) (chunkID msg) (msgBody msg).



(** The IDs in use are below the number of entries: what holds as long as
    no entry has been removed. *)
Definition denseIDs (ids : gmap block (Z * block)) : Prop :=
  ∀ b e, ids !! b = Some e → 0 ≤ e.1 < Z.of_nat (size ids).

End SmallRuntime.

(** ** Concrete states and inputs, and the vocabulary of the statements *)

Module Inputs.
Import MemH Interp DataPrims RadioPrims SmallRuntime.

(** An arena of 64 words that [malloc] placed at address 4096, and a VM
    that owns it. *)
Definition arena64 : heap := final_state (Mem.memInit 64 4096 ∅).
Definition vm64 : vm := mkVM arena64 noError.

(** A runtime whose serial port is open. *)
Definition openRuntime : runtime := setPortVar (Some (mkPort true)) newRuntime.

(** Three junk bytes and, behind them, a complete ping frame. *)
Definition junkThenPing : list Z := [0; 255; 66; 250; 26; 0].
Definition pingMsg : wireMsg := mkMsg 26 0 None.

(** A serial port that delivers [bytes] at the first read and nothing after. *)
Definition firstReadOnly (bytes : list Z) (k : nat) : option (list Z) :=
  match k with O => Some bytes | S _ => None end.


(** Three blocks A, B and C; A and B are saved, A is deleted, C is saved. *)
Definition blockA : block := 1%nat.
Definition blockB : block := 2%nat.
Definition blockC : block := 3%nat.
Definition saveDeleteSave : option (Z * Z * Z * runtime) :=
  let '(idA, rt) := chunkIdFor blockA newRuntime in
  let '(idB, rt) := chunkIdFor blockB rt in
  rt ← deleteChunkForBlock None blockA rt;
  let '(idC, rt) := chunkIdFor blockC rt in
  Some (idA, idB, idC, rt).

(** makeList(5) followed by delete("last"): a List of capacity 1 that holds
    no item; the result is the list and the string "last". *)
Definition emptiedList : outcome vm (Z * Z) :=
  (l ← primMakeList [int2obj 5];
   last ← liftHeap (Mem.newString (bytesOf "last"));
   primListDelete [last; l];;
   mret (l, last)) vm64.

(** The UTF-8 bytes of "héllo": h, C3 A9, l, l, o. *)
Definition helloBytes : list Z := [104; 195; 169; 108; 108; 111].
Definition eAcuteBytes : list Z := [195; 169].
Definition helloString : outcome vm Z := liftHeap (Mem.newString helloBytes) vm64.

(** The three configuration primitives and the largest value each accepts. *)
Inductive setting : Type := Group | Power | Channel.
Definition settingMax (w : setting) : Z :=
  match w with Group => 255 | Power => 7 | Channel => 83 end.
Definition settingPrim (w : setting) : board → list Z → device → option Z * device :=
  match w with
  | Group => primSetGroup
  | Power => primSetPower
  | Channel => primSetChannel
  end.

(** An argument the primitive ignores: absent, not a small integer, or an
    integer outside [0 .. max]. *)
Definition ignoredArgument (max : Z) (args : list Z) : Prop :=
  argCount args = 0 ∨ isInt (arg args 0) = false ∨
  obj2int (arg args 0) < 0 ∨ max < obj2int (arg args 0).

(** A string frame "hi" waiting in slot 0 of the ring. *)
Definition hiPacket : list Z :=
  [15; 1; 0; 1; 2; 0; 0; 0; 0; 0; 0; 0; 0; 2; 104; 105] ++ replicate 16 0.
Definition radioWithHi : radio :=
  mkRadio (-40) (-1) 0 (mkStatic 0 (replicate 32 0)) (mkStatic 0 (replicate 20 0))
          (hiPacket ++ replicate 96 0) true 1 1 ∅ RadioRx true.
Definition deviceWithHi : device := mkDevice vm64 radioWithHi.

End Inputs.

(** * Properties *)

Import MemH Interp DataPrims RadioPrims SmallRuntime Inputs.

(** ** Machine words *)

Section Words.

Lemma lor_shiftl_add (hi lo k : Z) :
  0 ≤ k → 0 ≤ lo < 2 ^ k → Z.lor (Z.shiftl hi k) lo = hi * 2 ^ k + lo.
Proof.
  intros Hk Hlo.
  assert (Hdisj : Z.land (Z.shiftl hi k) lo = 0).
  { apply Z.bits_inj'. intros n Hn.
    rewrite Z.land_spec, Z.bits_0.
    destruct (Z.ltb_spec n k) as [Hlt | Hge].
    - rewrite Z.shiftl_spec_low by lia. reflexivity.
    - assert (Hm : lo mod 2 ^ k = lo) by (apply Z.mod_small; lia).
      rewrite <- Hm, Z.mod_pow2_bits_high by lia. apply andb_false_r. }
  pose proof (Z.add_lor_land (Z.shiftl hi k) lo) as Hadd.
  rewrite Hdisj in Hadd. rewrite <- (Z.shiftl_mul_pow2 hi k) by lia. lia.
Qed.

Lemma wrap32_small (z : Z) : - 2 ^ 31 ≤ z < 2 ^ 31 → wrap32 z = z.
Proof. intros Hz. unfold wrap32. rewrite Z.mod_small by lia. lia. Qed.

Lemma int2obj_eq (n : Z) : - 2 ^ 30 ≤ n < 2 ^ 30 → int2obj n = 2 * n + 1.
Proof.
  intros Hn. unfold int2obj.
  rewrite lor_shiftl_add by lia. rewrite wrap32_small; lia.
Qed.

Lemma obj2int_int2obj (n : Z) : - 2 ^ 30 ≤ n < 2 ^ 30 → obj2int (int2obj n) = n.
Proof.
  intros Hn. rewrite int2obj_eq by lia. unfold obj2int.
  rewrite Z.shiftr_div_pow2 by lia. change (2 ^ 1) with 2.
  rewrite Z.mul_comm, Z.div_add_l by lia. change (1 `div` 2) with 0. lia.
Qed.

Lemma isInt_int2obj (n : Z) : - 2 ^ 30 ≤ n < 2 ^ 30 → isInt (int2obj n) = true.
Proof.
  intros Hn. rewrite int2obj_eq by lia. unfold isInt.
  apply (Z.testbit_odd_0 n).
Qed.

Lemma HEADER_eq (c n : Z) :
  0 ≤ c < 16 → 0 ≤ n < 2 ^ 28 → HEADER c n = n * 16 + c.
Proof.
  intros Hc Hn. unfold HEADER, wrapU32.
  change 15 with (Z.ones 4). rewrite Z.land_ones by lia.
  rewrite (Z.mod_small c) by (change (2 ^ 4) with 16; lia).
  rewrite lor_shiftl_add by (change (2 ^ 4) with 16; lia).
  change (2 ^ 4) with 16. apply Z.mod_small. lia.
Qed.

Lemma headerWords_HEADER (c n : Z) :
  0 ≤ c < 16 → 0 ≤ n < 2 ^ 28 → headerWords (HEADER c n) = n.
Proof.
  intros Hc Hn. rewrite HEADER_eq by lia. unfold headerWords, wrapU32.
  rewrite Z.mod_small by lia. rewrite Z.shiftr_div_pow2 by lia.
  change (2 ^ 4) with 16. rewrite Z.div_add_l by lia.
  rewrite Z.div_small by lia. lia.
Qed.

Lemma headerClass_HEADER (c n : Z) :
  0 ≤ c < 16 → 0 ≤ n < 2 ^ 28 → headerClass (HEADER c n) = c.
Proof.
  intros Hc Hn. rewrite HEADER_eq by lia. unfold headerClass, wrapU32.
  rewrite Z.mod_small by lia.
  change 15 with (Z.ones 4). rewrite Z.land_ones by lia.
  change (2 ^ 4) with 16. rewrite Z.add_comm, Z.mod_add by lia.
  apply Z.mod_small. lia.
Qed.

End Words.

(** ** The allocator *)

Section Allocator.

Lemma fillWords_below (n : nat) (p v : Z) (m : gmap Z Z) (a : Z) :
  a < p → Mem.fillWords n p v m !! a = m !! a.
Proof.
  revert p m. induction n as [| n IH]; intros p m Ha; simpl; [reflexivity |].
  unfold ptrAdd. rewrite IH by lia. apply lookup_insert_ne. lia.
Qed.

Lemma fillWords_inside (n : nat) (p v : Z) (m : gmap Z Z) (k : Z) :
  0 ≤ k < Z.of_nat n → Mem.fillWords n p v m !! (p + 4 * k) = Some v.
Proof.
  revert p m k. induction n as [| n IH]; intros p m k Hk; simpl; [lia |].
  destruct (decide (k = 0)) as [-> | Hne].
  - rewrite fillWords_below by (unfold ptrAdd; lia).
    replace (p + 4 * 0) with p by lia. apply lookup_insert_eq.
  - replace (p + 4 * k) with (ptrAdd p 1 + 4 * (k - 1)) by (unfold ptrAdd; lia).
    apply IH. lia.
Qed.




End Allocator.

(** ** Lists: construction *)

Section NewArray.

Lemma isHeapRef_aligned (obj : Z) :
  trueObj < obj → obj mod 4 = 0 → isHeapRef obj = true.
Proof.
  intros Hgt Hal. unfold isHeapRef, isInt, trueObj in *.
  assert (Hbit : Z.testbit obj 0 = false).
  { rewrite Z.bit0_odd. rewrite (Z.div_mod obj 4) by lia. rewrite Hal.
    replace (4 * (obj `div` 4) + 0) with (2 * (2 * (obj `div` 4))) by lia.
    apply Z.odd_even. }
  rewrite Hbit. simpl.
  destruct (Z.eqb_spec (obj mod 4) 0); [| contradiction].
  destruct (Z.ltb_spec 8 obj); [reflexivity | lia].
Qed.

(** C2 (as amended): when the request fits the arena (and its word count
    the size field of the header), [newArray] returns a growable List with
    room for max(2, capacityOpt) items (2 when the argument is absent or not
    an integer) whose item count is that same capacity, every item being
    zero. *)
Theorem primNewArray_full_list (args : list Z) (s : vm) :
  let capacityOpt :=
    if (0 <? argCount args) && isInt (arg args 0) then obj2int (arg args 0) else 2 in
  let capacity := Z.max 2 capacityOpt in
  Mem.wellPlaced (vmHeap s) →
  capacity + 1 < 2 ^ 28 →
  ptrAdd (freeStart (vmHeap s)) (HEADER_WORDS + (capacity + 1)) < memEnd (vmHeap s) →
  ∃ result s',
    primNewArray args s = Returns result s' ∧
    result = freeStart (vmHeap s) ∧
    errorCode s' = errorCode s ∧
    let m := store (vmHeap s') in
    IS_TYPE m result ListType = true ∧
    listCapacity m result = capacity ∧
    listCount m result = capacity ∧
    ∀ i, 1 ≤ i ≤ capacity → FIELD m result i = zeroObj.
Proof.
  intros capacityOpt capacity [Hgt Hal] Hcap Hfits.
  unfold primNewArray.
  fold capacityOpt.
  replace (if capacityOpt <? 2 then 2 else capacityOpt) with capacity
    by (unfold capacity; destruct (Z.ltb_spec capacityOpt 2); lia).
  assert (Hc2 : 2 ≤ capacity) by (unfold capacity; lia).
  generalize dependent capacity. intros capacity Hcap Hfits Hc2.
  unfold mbind, M_bind, allocObj, liftHeap, Mem.newObj. simpl.
  destruct (Z.leb_spec (memEnd (vmHeap s))
              (ptrAdd (freeStart (vmHeap s)) (HEADER_WORDS + (capacity + 1)))) as [Hle | _];
    [lia |].
  set (obj := freeStart (vmHeap s)) in *.
  unfold trueObj in Hgt.
  destruct (Z.eqb_spec obj 0) as [H0 | _]; [lia |].
  unfold modifyMem, mret, M_ret. simpl.
  eexists _, _. split; [reflexivity |]. split; [reflexivity |]. split; [reflexivity |].
  simpl.
  assert (Hhdr : load (setFIELD obj 0 (int2obj capacity)
                   (<[obj := HEADER ListType (capacity + 1)]>
                      (Mem.fillWords (Z.to_nat (HEADER_WORDS + (capacity + 1))) obj
                         (wrap32 (int2obj 0)) (store (vmHeap s))))) obj
                 = HEADER ListType (capacity + 1)).
  { unfold load, setFIELD, fieldAddr, ptrAdd, HEADER_WORDS.
    rewrite lookup_insert_ne by lia. rewrite lookup_insert_eq. reflexivity. }
  split; [| split; [| split]].
  - unfold IS_TYPE, CLASS. rewrite isHeapRef_aligned by (unfold trueObj; lia).
    rewrite Hhdr, headerClass_HEADER by (unfold ListType; lia). reflexivity.
  - unfold listCapacity, WORDS. rewrite Hhdr, headerWords_HEADER by (unfold ListType; lia).
    lia.
  - unfold listCount, FIELD, load, setFIELD. rewrite lookup_insert_eq. simpl.
    apply obj2int_int2obj. lia.
  - intros i Hi. unfold FIELD, load, setFIELD, fieldAddr, ptrAdd, HEADER_WORDS.
    rewrite lookup_insert_ne by lia. rewrite lookup_insert_ne by lia.
    replace (obj + 4 * (1 + i)) with (obj + 4 * (1 + i)) by lia.
    rewrite fillWords_inside by lia. reflexivity.
Qed.

Lemma primNewArray_full_list_witness :
  ∃ result s',
    primNewArray [int2obj 5] vm64 = Returns result s' ∧
    listCount (store (vmHeap s')) result = 5.
Proof.
  destruct (primNewArray_full_list [int2obj 5] vm64) as (result & s' & Hrun & _ & _ & Hm).
  - split; vm_compute; reflexivity.
  - vm_compute. reflexivity.
  - vm_compute. reflexivity.
  - exists result, s'. split; [exact Hrun |].
    destruct Hm as (_ & _ & Hcount & _). exact Hcount.
Defined.

(** C2 (as stated) fails: the list that [newArray] returns for no argument
    has capacity 2 and item count 2, not 0. *)
Lemma primNewArray_count_is_capacity :
  ∃ result s',
    primNewArray [] vm64 = Returns result s' ∧
    listCapacity (store (vmHeap s')) result = 2 ∧
    listCount (store (vmHeap s')) result = 2 ∧
    listCount (store (vmHeap s')) result ≠ 0.
Proof.
  eexists _, _. split; [reflexivity |].
  split; [vm_compute; reflexivity |].
  split; [vm_compute; reflexivity |].
  vm_compute. discriminate.
Qed.

End NewArray.

(** ** The wire format *)

Section Wire.

Lemma dispatched_handleMessage (now : Z) (msg : list Z) (rt : runtime) :
  dispatched (handleMessage now msg rt) = dispatched rt ++ [msg].
Proof.
  unfold handleMessage.
  repeat (match goal with |- context [if ?b then _ else _] => destruct b end);
    reflexivity.
Qed.

Lemma lengthField_bytes (n : Z) (op id : Z) (rest : list Z) :
  0 ≤ n < 65536 →
  lengthField (251 :: op :: id :: Z.land n 255 :: Z.land (Z.shiftr n 8) 255 :: rest) = n.
Proof.
  intros Hn. unfold lengthField, byteAt. simpl.
  change 255 with (Z.ones 8). rewrite !Z.land_ones by lia.
  rewrite Z.shiftr_div_pow2 by lia.
  rewrite lor_shiftl_add by (try lia; apply Z.mod_pos_bound; lia).
  change (2 ^ 8) with 256.
  rewrite (Z.mod_small (n `div` 256)) by (split; [apply Z.div_pos; lia | apply Z.div_lt_upper_bound; lia]).
  pose proof (Z.div_mod n 256). lia.
Qed.

(** A complete frame arriving at an empty buffer is dispatched whole and
    drained. *)
Lemma processMessages2_frame (now : Z) (msg : wireMsg) (rt : runtime) :
  recvBuf rt = [] →
  match msgBody msg with Some b => Z.of_nat (length b) < 65535 | None => True end →
  let rt' := processMessages2 now (Some (encode msg)) rt in
  dispatched rt' = dispatched rt ++ [encode msg] ∧ recvBuf rt' = [].
Proof.
  intros Hbuf Hlen. destruct msg as [op id [b |]]; simpl in *.
  - unfold processMessages2. rewrite Hbuf. simpl recvBuf. cbn [app].
    unfold encode, encodeMsg. simpl.
    set (n := Z.of_nat (length b) + 1).
    rewrite lengthField_bytes by lia.
    assert (Hlt : (Z.of_nat (S (S (S (S (S (length (b ++ [254]))))))) <? 5 + n) = false).
    { apply Z.ltb_ge. rewrite length_app. simpl. lia. }
    rewrite Hlt.
    assert (Hlen5 : Z.to_nat (n + 5) = S (S (S (S (S (length (b ++ [254]))))))).
    { rewrite length_app. simpl. lia. }
    assert (Hlen6 : Z.to_nat (n + 6) = S (S (S (S (S (S (length (b ++ [254])))))))).
    { rewrite length_app. simpl. lia. }
    unfold copyFromTo, copyFrom. rewrite Hlen5, Hlen6. simpl.
    rewrite take_ge by (simpl; lia). rewrite drop_ge by lia.
    rewrite dispatched_handleMessage. split; reflexivity.
  - unfold processMessages2. rewrite Hbuf. simpl.
    rewrite dispatched_handleMessage. split; reflexivity.
Qed.

End Wire.

(** ** The host receive loop *)

Section Receive.

(** C3 (as amended): when the buffer holds at least three bytes and its
    lead byte is neither 250 nor 251, the receive step dispatches nothing
    and empties the whole buffer, a complete frame buffered behind the junk
    included; a valid frame that arrives afterwards is dispatched. *)
Theorem resync_discards_buffer_then_dispatches (now now' : Z) (bytes : list Z)
    (next : wireMsg) (rt : runtime) :
  let buf := recvBuf rt ++ bytes in
  (3 ≤ length buf)%nat →
  byteAt buf 1 ≠ 250 →
  byteAt buf 1 ≠ 251 →
  match msgBody next with Some b => Z.of_nat (length b) < 65535 | None => True end →
  let rt1 := processMessages2 now (Some bytes) rt in
  let rt2 := processMessages2 now' (Some (encode next)) rt1 in
  rt1 = setRecvBuf [] rt ∧
  dispatched rt1 = dispatched rt ∧
  dispatched rt2 = dispatched rt ++ [encode next] ∧
  recvBuf rt2 = [].
Proof.
  intros buf Hlen H250 H251 Hnext rt1 rt2.
  assert (Hrt1 : rt1 = setRecvBuf [] rt).
  { unfold rt1, processMessages2. simpl recvBuf. fold buf.
    destruct (Nat.ltb_spec (length buf) 3) as [Hlt | _]; [lia |].
    destruct (Z.eqb_spec (byteAt buf 1) 250) as [E | _]; [contradiction |].
    destruct (Z.eqb_spec (byteAt buf 1) 251) as [E | _]; [contradiction |].
    reflexivity. }
  split; [exact Hrt1 |].
  split; [rewrite Hrt1; reflexivity |].
  unfold rt2. rewrite Hrt1.
  destruct (processMessages2_frame now' next (setRecvBuf [] rt) eq_refl Hnext) as [Hd Hb].
  split; [exact Hd | exact Hb].
Qed.

Lemma resync_discards_buffer_then_dispatches_witness :
  dispatched (processMessages2 0 (Some (encode pingMsg))
                (processMessages2 0 (Some junkThenPing) openRuntime))
  = [encode pingMsg].
Proof.
  destruct (resync_discards_buffer_then_dispatches 0 0 junkThenPing pingMsg openRuntime)
    as (_ & _ & Hd & _).
  - vm_compute. lia.
  - vm_compute. discriminate.
  - vm_compute. discriminate.
  - exact I.
  - exact Hd.
Defined.

(** C3 (as stated) fails: with the junk bytes 0, 255, 66 and a complete ping
    frame behind them in the buffer, the twenty rounds of [processMessages]
    dispatch nothing; the frame is discarded with the junk. *)
Lemma resync_loses_buffered_frame :
  let rt := processMessages 0 (firstReadOnly junkThenPing) openRuntime in
  dispatched rt = [] ∧ recvBuf rt = [] ∧
  ¬ (encode pingMsg ∈ dispatched rt).
Proof.
  split; [vm_compute; reflexivity |].
  split; [vm_compute; reflexivity |].
  intros Hin. vm_compute in Hin. inversion Hin.
Qed.





End Receive.

(** ** Chunk IDs *)

Section ChunkIDs.

(** C4, at the failing input: after blocks A and B are saved (IDs 0 and 1)
    and A is deleted, the first save of block C is given ID 1, the ID that
    block B still holds; no [deleteAllCode] or reset came in between. *)
Theorem chunkIdFor_reuses_live_id :
  ∃ rt, saveDeleteSave = Some (0, 1, 1, rt) ∧
        lookupChunkID blockB rt = Some 1 ∧
        lookupChunkID blockC rt = Some 1 ∧
        lookupChunkID blockA rt = None.
Proof.
  eexists. split; [vm_compute; reflexivity |].
  repeat split; vm_compute; reflexivity.
Qed.

(** Without deletes the IDs are the sequential ones. *)
Lemma chunkIdFor_fresh_block (aBlock : block) (rt : runtime) (ids : gmap block (Z * block)) :
  chunkIDs rt = Some ids → ids !! aBlock = None →
  (chunkIdFor aBlock rt).1 = Z.of_nat (size ids).
Proof.
  intros Hids Hnone. unfold chunkIdFor. rewrite Hids. simpl. rewrite Hnone. reflexivity.
Qed.

Lemma chunkIdFor_known_block (aBlock : block) (rt : runtime) (ids : gmap block (Z * block))
    (entry : Z * block) :
  chunkIDs rt = Some ids → ids !! aBlock = Some entry →
  chunkIdFor aBlock rt = (entry.1, rt).
Proof.
  intros Hids Hsome. unfold chunkIdFor. rewrite Hids. simpl. rewrite Hsome.
  destruct rt. simpl in *. subst. reflexivity.
Qed.

(** As long as no block has been deleted, a first save gets an ID that no
    other block holds, and the IDs stay dense. *)
Lemma chunkIdFor_fresh_while_dense (aBlock : block) (rt : runtime)
    (ids : gmap block (Z * block)) :
  chunkIDs rt = Some ids → denseIDs ids → ids !! aBlock = None →
  let '(id, rt') := chunkIdFor aBlock rt in
  id = Z.of_nat (size ids) ∧
  (∀ b e, ids !! b = Some e → e.1 ≠ id) ∧
  ∃ ids', chunkIDs rt' = Some ids' ∧ denseIDs ids' ∧ ids' !! aBlock = Some (id, aBlock).
Proof.
  intros Hids Hdense Hnone. unfold chunkIdFor. rewrite Hids. simpl. rewrite Hnone.
  split; [reflexivity |]. split.
  - intros b e Hb Heq. apply Hdense in Hb. lia.
  - eexists. split; [reflexivity |]. split; [| apply lookup_insert_eq].
    intros b e Hb. rewrite map_size_insert_None by exact Hnone.
    destruct (decide (aBlock = b)) as [-> | Hne].
    + rewrite lookup_insert_eq in Hb. injection Hb as <-. simpl. lia.
    + rewrite lookup_insert_ne in Hb by exact Hne. apply Hdense in Hb. lia.
Qed.

End ChunkIDs.

(** ** Liveness *)

Section Liveness.

Lemma sendMsg_ping (opened : option serialPort) (rt : runtime) :
  ∃ rt', sendMsg opened "pingMsg" None None rt = Some rt' ∧
         lastPingRecvMSecs rt' = lastPingRecvMSecs rt.
Proof.
  unfold sendMsg. change (msgNameToID "pingMsg") with (Some 26). simpl.
  eexists. split; [reflexivity |].
  destruct (portIsOpen (ensurePortOpen opened rt)); simpl;
    unfold ensurePortOpen; destruct (portIsOpen rt); simpl; trivial;
    destruct (portName rt); reflexivity.
Qed.

(** C9: [connectionStatus] answers with exactly one of the three statuses:
    'not connected' exactly when the port is nil or not open; otherwise
    'connected' exactly when less than 2200 msecs (the 2000 msec ping
    interval plus 200) have passed since the last ping was received, and
    'board not responding' in the remaining case. The time of the last ping
    is [lastPingRecvMSecs], which the method reads as 0 while it is nil. *)
Theorem connectionStatus_three_way (opened : option serialPort) (t1 t2 t3 : Z)
    (rt : runtime) :
  let sinceLastPing := t3 - default 0 (lastPingRecvMSecs rt) in
  ∃ status rt',
    connectionStatus opened t1 t2 t3 rt = Some (status, rt') ∧
    (status = "not connected" ∨ status = "connected" ∨ status = "board not responding") ∧
    (status = "not connected" ↔ portIsOpen rt = false) ∧
    (status = "connected" ↔ portIsOpen rt = true ∧ sinceLastPing < 2000 + 200) ∧
    (status = "board not responding" ↔ portIsOpen rt = true ∧ 2000 + 200 ≤ sinceLastPing).
Proof.
  intros sinceLastPing. unfold connectionStatus.
  assert (Hopen : ∀ a b, portIsOpen (setLastPingRecv a (setPingSent b rt)) = portIsOpen rt)
    by reflexivity.
  rewrite Hopen.
  destruct (portIsOpen rt) eqn:Hport; simpl negb; cbv iota.
  - set (rt0 := setLastPingRecv _ _).
    assert (Hlast : default 0 (lastPingRecvMSecs rt0) = default 0 (lastPingRecvMSecs rt)).
    { unfold rt0. simpl. destruct (lastPingRecvMSecs rt); reflexivity. }
    assert (Hstep : ∃ rt1,
      (if 2000 <? t1 - default 0 (pingSentMSecs rt0)
       then rt' ← sendMsg opened "pingMsg" None None rt0; Some (setPingSent (Some t2) rt')
       else Some rt0) = Some rt1 ∧
      default 0 (lastPingRecvMSecs rt1) = default 0 (lastPingRecvMSecs rt)).
    { destruct (2000 <? t1 - default 0 (pingSentMSecs rt0)).
      - destruct (sendMsg_ping opened rt0) as (rt' & Hsend & Hkeep).
        rewrite Hsend. simpl. eexists. split; [reflexivity |].
        simpl. rewrite Hkeep. exact Hlast.
      - eexists. split; [reflexivity | exact Hlast]. }
    destruct Hstep as (rt1 & Hrun & Hlast1). rewrite Hrun. simpl.
    rewrite Hlast1. fold sinceLastPing.
    destruct (Z.ltb_spec sinceLastPing (2000 + 200)) as [Hlt | Hge].
    + eexists _, _. split; [reflexivity |].
      repeat split; try (intros; discriminate); try lia; auto;
        try (intros [? ?]; first [discriminate | lia]).
    + eexists _, _. split; [reflexivity |].
      repeat split; try (intros; discriminate); try lia; auto;
        try (intros [? ?]; first [discriminate | lia]).
  - eexists _, _. split; [reflexivity |].
    repeat split; try (intros; discriminate); auto;
      try (intros [? ?]; first [discriminate | lia]).
Qed.

End Liveness.

(** ** Lists: the invariant *)

Section DeleteKeepsInvariant.

Lemma WORDS_range (m : gmap Z Z) (obj : Z) : 0 ≤ WORDS m obj < 2 ^ 28.
Proof.
  unfold WORDS, headerWords, wrapU32.
  rewrite Z.shiftr_div_pow2 by lia.
  pose proof (Z.mod_pos_bound (load m obj) (2 ^ 32) ltac:(lia)) as Hm.
  split; [apply Z.div_pos; lia | apply Z.div_lt_upper_bound; lia].
Qed.

Lemma load_setFIELD_header (obj i v : Z) (m : gmap Z Z) :
  0 ≤ i → load (setFIELD obj i v m) obj = load m obj.
Proof.
  intros Hi. unfold load, setFIELD, fieldAddr, ptrAdd, HEADER_WORDS.
  rewrite lookup_insert_ne by lia. reflexivity.
Qed.

Lemma FIELD_setFIELD (obj i j v : Z) (m : gmap Z Z) :
  FIELD (setFIELD obj i v m) obj j = if decide (i = j) then v else FIELD m obj j.
Proof.
  unfold FIELD, load, setFIELD, fieldAddr, ptrAdd. case_decide as Hij.
  - subst. rewrite lookup_insert_eq. reflexivity.
  - rewrite lookup_insert_ne by lia. reflexivity.
Qed.

(** A loop that stores into fields [i .. i + n - 1] leaves every other word
    of the store alone. *)
Lemma forLoop_fields_other (obj : Z) (f : Z → gmap Z Z → Z) (n : nat) (i : Z)
    (m : gmap Z Z) (a : Z) :
  (∀ j, i ≤ j < i + Z.of_nat n → a ≠ fieldAddr obj j) →
  forLoop n i (λ j m', setFIELD obj j (f j m') m') m !! a = m !! a.
Proof.
  revert i m. induction n as [| n IH]; intros i m Ha; simpl; [reflexivity |].
  rewrite IH by (intros j Hj; apply Ha; lia).
  unfold setFIELD. apply lookup_insert_ne. intros Heq. apply (Ha i); [lia | auto].
Qed.

Lemma forLoop_fill_inside (obj v : Z) (n : nat) (i : Z) (m : gmap Z Z) (j : Z) :
  i ≤ j < i + Z.of_nat n →
  FIELD (forLoop n i (λ k m', setFIELD obj k v m') m) obj j = v.
Proof.
  revert i m. induction n as [| n IH]; intros i m Hj; simpl; [lia |].
  destruct (decide (j = i)) as [-> | Hne].
  - unfold FIELD, load.
    rewrite (forLoop_fields_other obj (λ _ _, v)) by
      (intros k Hk; unfold fieldAddr, ptrAdd; lia).
    unfold setFIELD. rewrite lookup_insert_eq. reflexivity.
  - apply IH. lia.
Qed.

(** The invariant from its ingredients: same header, a count within the
    capacity, zeros above it. *)
Lemma listInvariant_intro (m m' : gmap Z Z) (obj c : Z) :
  listInvariant m obj →
  load m' obj = load m obj →
  FIELD m' obj 0 = int2obj c →
  0 ≤ c ≤ listCapacity m obj →
  (∀ i, c < i ≤ listCapacity m obj → FIELD m' obj i = zeroObj) →
  listInvariant m' obj.
Proof.
  intros (Hty & Hcount & Hzero) Hhdr Hf0 Hc Hz.
  pose proof (WORDS_range m obj) as Hw.
  assert (Hcap : listCapacity m' obj = listCapacity m obj)
    by (unfold listCapacity, WORDS; rewrite Hhdr; reflexivity).
  assert (Hcnt : listCount m' obj = c).
  { unfold listCount. rewrite Hf0. apply obj2int_int2obj.
    unfold listCapacity in Hc. lia. }
  split; [| split].
  - unfold IS_TYPE, CLASS in *. rewrite Hhdr. exact Hty.
  - rewrite Hcnt, Hcap. exact Hc.
  - intros i Hi. rewrite Hcnt, Hcap in Hi. apply Hz. exact Hi.
Qed.

(** [delete] keeps the invariant of the list it is given, whatever its
    index argument: the slot it frees is cleared. *)
Lemma primListDelete_keeps_invariant (args : list Z) (s : vm) :
  listInvariant (store (vmHeap s)) (arg args 1) →
  ∃ r s', primListDelete args s = Returns r s' ∧
          listInvariant (store (vmHeap s')) (arg args 1).
Proof.
  intros Hinv. pose proof Hinv as (Hty & Hcount & Hzero).
  set (m := store (vmHeap s)) in *. set (lst := arg args 1) in *.
  pose proof (WORDS_range m lst) as Hw.
  assert (Hclamp : clampedCount m lst = listCount m lst).
  { unfold clampedCount. fold (listCount m lst).
    destruct (Z.leb_spec (WORDS m lst) (listCount m lst)); [| reflexivity].
    unfold listCapacity in Hcount. lia. }
  unfold primListDelete.
  destruct (argCount args <? 2); [eexists _, _; split; [reflexivity | exact Hinv] |].
  unfold mbind, M_bind, getMem. fold m. fold lst. rewrite Hty. simpl negb. cbv iota.
  rewrite Hclamp. set (count := listCount m lst) in *.
  destruct (matches "all" m (arg args 0)).
  { eexists _, _. split; [reflexivity |]. simpl.
    apply (listInvariant_intro m _ lst 0 Hinv).
    - unfold load. rewrite (forLoop_fields_other lst (λ _ _, zeroObj))
        by (intros j Hj; unfold fieldAddr, ptrAdd, HEADER_WORDS; lia).
      reflexivity.
    - apply forLoop_fill_inside. lia.
    - lia.
    - intros i Hi. destruct (Z.le_gt_cases i count) as [Hle | Hgt].
      + apply forLoop_fill_inside. lia.
      + unfold FIELD, load.
        rewrite (forLoop_fields_other lst (λ _ _, zeroObj))
          by (intros j Hj; unfold fieldAddr, ptrAdd; lia).
        apply Hzero. lia. }
  destruct (matches "last" m (arg args 0)).
  { destruct (Z.eqb_spec count 0) as [H0 | Hne].
    - eexists _, _. split; [reflexivity | exact Hinv].
    - eexists _, _. split; [reflexivity |]. simpl.
      apply (listInvariant_intro m _ lst (count - 1) Hinv).
      + rewrite !load_setFIELD_header by lia. reflexivity.
      + rewrite FIELD_setFIELD. rewrite decide_True by reflexivity. reflexivity.
      + lia.
      + intros i Hi. rewrite !FIELD_setFIELD.
        rewrite decide_False by lia.
        destruct (decide (count = i)); [reflexivity |]. apply Hzero. lia. }
  destruct (isInt (arg args 0)); simpl negb; cbv iota;
    [| eexists _, _; split; [reflexivity | exact Hinv]].
  destruct (Z.ltb_spec (obj2int (arg args 0)) 1) as [Hlow | Hlow]; simpl;
    [eexists _, _; split; [reflexivity | exact Hinv] |].
  destruct (Z.ltb_spec count (obj2int (arg args 0))) as [Hhigh | Hhigh]; simpl;
    [eexists _, _; split; [reflexivity | exact Hinv] |].
  eexists _, _. split; [reflexivity |]. simpl.
  set (i0 := obj2int (arg args 0)) in *.
  fold m.
  match goal with
  | |- context [forLoop ?n ?i ?body m] => set (shifted := forLoop n i body m)
  end.
  assert (Hother : ∀ a, (∀ j, i0 ≤ j < count → a ≠ fieldAddr lst j) →
                        shifted !! a = m !! a).
  { intros a Ha. unfold shifted.
    apply (forLoop_fields_other lst (λ j m', FIELD m' lst (j + 1))).
    intros j Hj. apply Ha. lia. }
  apply (listInvariant_intro m _ lst (count - 1) Hinv).
  - rewrite !load_setFIELD_header by lia. unfold load.
    rewrite Hother by (intros j Hj; unfold fieldAddr, ptrAdd, HEADER_WORDS; lia).
    reflexivity.
  - rewrite FIELD_setFIELD. rewrite decide_True by reflexivity. reflexivity.
  - lia.
  - intros i Hi. rewrite !FIELD_setFIELD. rewrite decide_False by lia.
    destruct (decide (count = i)); [reflexivity |].
    unfold FIELD, load.
    rewrite Hother by (intros j Hj; unfold fieldAddr, ptrAdd; lia).
    apply Hzero. lia.
Qed.

End DeleteKeepsInvariant.

Section Lists.

(** The check that runs decides the invariant. *)
Lemma listInvariantb_sound (m : gmap Z Z) (obj : Z) :
  listInvariant m obj → listInvariantb m obj = true.
Proof.
  intros (Hty & Hcount & Hzero). unfold listInvariantb.
  rewrite Hty. simpl.
  destruct (Z.leb_spec 0 (listCount m obj)); [| lia].
  destruct (Z.leb_spec (listCount m obj) (listCapacity m obj)); [| lia].
  simpl. apply forallb_forall. intros k Hk. apply in_seq in Hk.
  apply Z.eqb_eq, Hzero. lia.
Qed.

(** C5, at the failing inputs. The list left by makeList(5) and
    delete("last") has capacity 1, count 0 and satisfies the invariant.
    [fill] with 7 stores 7 into the reserved slot 1 while the count stays 0;
    [atPut] at "last" stores the value into field 0, so that the count reads
    100 with capacity 1. Either way the invariant no longer holds, and no
    error is signalled. *)
Theorem fill_and_atPut_break_list_invariant :
  ∃ l last s,
    emptiedList = Returns (l, last) s ∧
    listInvariant (store (vmHeap s)) l ∧
    listCount (store (vmHeap s)) l = 0 ∧
    listCapacity (store (vmHeap s)) l = 1 ∧
    (∃ s1, primArrayFill [l; int2obj 7] s = Returns falseObj s1 ∧
           errorCode s1 = noError ∧
           listCount (store (vmHeap s1)) l = 0 ∧
           FIELD (store (vmHeap s1)) l 1 = int2obj 7 ∧
           ¬ listInvariant (store (vmHeap s1)) l) ∧
    (∃ s2, primArrayAtPut 0 [last; l; int2obj 100] s = Returns falseObj s2 ∧
           errorCode s2 = noError ∧
           listCount (store (vmHeap s2)) l = 100 ∧
           listCapacity (store (vmHeap s2)) l = 1 ∧
           ¬ listInvariant (store (vmHeap s2)) l).
Proof.
  eexists _, _, _. split; [vm_compute; reflexivity |].
  split; [| split; [| split; [| split]]].
  - split; [vm_compute; reflexivity |].
    split; [vm_compute; split; discriminate |].
    intros i Hi.
    assert (Hi1 : i = 1).
    { match type of Hi with
      | ?a < i ≤ ?b =>
          assert (Ha : a = 0) by (vm_compute; reflexivity);
          assert (Hb : b = 1) by (vm_compute; reflexivity);
          rewrite Ha, Hb in Hi
      end. lia. }
    subst i. vm_compute. reflexivity.
  - vm_compute. reflexivity.
  - vm_compute. reflexivity.
  - eexists. split; [vm_compute; reflexivity |].
    repeat split; try (vm_compute; reflexivity).
    intros Hinv. apply listInvariantb_sound in Hinv. vm_compute in Hinv. discriminate.
  - eexists. split; [vm_compute; reflexivity |].
    repeat split; try (vm_compute; reflexivity).
    intros Hinv. apply listInvariantb_sound in Hinv. vm_compute in Hinv. discriminate.
Qed.

End Lists.

(** ** Strings *)

Section CodepointCount.

Lemma ascii_not_continuation (b : Z) : 0 < b < 128 → isContinuationByte b = false.
Proof.
  intros Hb. unfold isContinuationByte. apply Z.eqb_neq. intros Heq.
  assert (Hbit : Z.testbit (Z.land b 192) 7 = true) by (rewrite Heq; reflexivity).
  rewrite Z.land_spec in Hbit. apply andb_prop in Hbit as [Hbit _].
  rewrite Z.bits_above_log2 in Hbit; [discriminate | lia |].
  apply Z.log2_lt_pow2; lia.
Qed.

Lemma encodedChar_startsChar (c tail : list Z) : encodedChar c → startsChar (c ++ tail).
Proof.
  destruct c as [| b rest]; simpl; [contradiction |].
  intros [[Hb _] | (_ & Hlead & _)].
  - apply ascii_not_continuation, Hb.
  - unfold isContinuationByte. rewrite Hlead. reflexivity.
Qed.

Lemma concat_startsChar (chars : list (list Z)) :
  Forall encodedChar chars → startsChar (concat chars).
Proof.
  intros Hall. destruct Hall as [| c cs Hc _]; simpl; [exact I |].
  apply encodedChar_startsChar, Hc.
Qed.

Lemma skipContinuation_app (conts tail : list Z) :
  Forall (λ x, isContinuationByte x = true) conts → startsChar tail →
  skipContinuation (conts ++ tail) = tail.
Proof.
  intros Hconts Htail. induction Hconts as [| b conts Hb _ IH]; simpl.
  - destruct tail as [| t tail']; [reflexivity |]. simpl in Htail.
    unfold isContinuationByte in Htail. simpl. rewrite Htail. reflexivity.
  - unfold isContinuationByte in Hb. rewrite Hb. exact IH.
Qed.

(** [nextUTF8] steps over exactly one encoded codepoint. *)
Lemma nextUTF8_encodedChar (c tail : list Z) :
  encodedChar c → startsChar tail → nextUTF8 (c ++ tail) = tail.
Proof.
  destruct c as [| b rest]; simpl; [contradiction |].
  intros [[Hb ->] | (Hb & Hlead & Hrest)] Htail.
  - destruct (Z.ltb_spec b 128); [reflexivity | lia].
  - destruct (Z.ltb_spec b 128); [lia |].
    rewrite Hlead. simpl. apply skipContinuation_app; assumption.
Qed.

Lemma countUTF8_loop_chars (chars : list (list Z)) (fuel : nat) (acc : Z) :
  Forall encodedChar chars → (length chars ≤ fuel)%nat →
  countUTF8_loop fuel (concat chars) acc = acc + Z.of_nat (length chars).
Proof.
  intros Hall. revert fuel acc.
  induction Hall as [| c cs Hc Hcs IH]; intros fuel acc Hfuel.
  - destruct fuel; simpl; lia.
  - destruct fuel as [| fuel]; [simpl in Hfuel; lia |].
    cbn [concat countUTF8_loop length].
    rewrite nextUTF8_encodedChar by (auto using concat_startsChar).
    destruct c as [| b rest]; [contradiction |]. cbn [app].
    rewrite IH by (simpl in Hfuel; lia). lia.
Qed.

(** [countUTF8] of a well-formed UTF-8 string is its number of codepoints. *)
Lemma countUTF8_codepoints (chars : list (list Z)) :
  Forall encodedChar chars →
  countUTF8 (concat chars) = Z.of_nat (length chars).
Proof.
  intros Hall. unfold countUTF8.
  rewrite countUTF8_loop_chars; [lia | exact Hall |].
  induction Hall as [| c cs Hc _ IH]; simpl; [lia |].
  rewrite length_app. destruct c; [contradiction | simpl; lia].
Qed.

End CodepointCount.

Section Strings.

(** C7, at the failing input. [length] of "héllo" is 5, the number of
    codepoints, but [at] with index 2 returns a string holding the single
    byte C3, the first half of "é": [primArrayAt] indexes bytes and asks for
    one byte. *)
Theorem at_returns_one_byte_of_codepoint :
  ∃ str s,
    helloString = Returns str s ∧
    Mem.obj2str (store (vmHeap s)) str = helloBytes ∧
    (∃ n s1, primLength [str] s = Returns n s1 ∧ obj2int n = 5) ∧
    (∃ c s2, primArrayAt 0 0 [int2obj 2; str] s = Returns c s2 ∧
             errorCode s2 = noError ∧
             Mem.obj2str (store (vmHeap s2)) c = [195] ∧
             Mem.obj2str (store (vmHeap s2)) c ≠ eAcuteBytes).
Proof.
  eexists _, _. split; [vm_compute; reflexivity |].
  split; [vm_compute; reflexivity |].
  split.
  - eexists _, _. split; vm_compute; reflexivity.
  - eexists _, _. split; [vm_compute; reflexivity |].
    repeat split; try (vm_compute; reflexivity).
    vm_compute. discriminate.
Qed.

End Strings.

(** ** The MakeCode message layer *)

Section Radio.

Variable rintOfBytes : list Z → Z.
Variable stackAfterPacket : Z → Z.






End Radio.


(** ** Radio configuration *)

Section RadioSettings.

(** C10: when its argument is absent, is not a small integer, or is an
    integer outside the valid range (group 0..255, power 0..7, channel
    0..83), each of [primSetGroup], [primSetPower] and [primSetChannel]
    returns with the whole device state as it was: no radio register or
    variable is written, and no error code is recorded. *)
Theorem radio_setting_ignores_bad_argument (w : setting) (b : board) (args : list Z)
    (d : device) :
  ignoredArgument (settingMax w) args →
  (settingPrim w b args d).2 = d ∧
  dRadio (settingPrim w b args d).2 = dRadio d ∧
  errorCode (dVM (settingPrim w b args d).2) = errorCode (dVM d).
Proof.
  intros Hbad.
  assert (Hsame : (settingPrim w b args d).2 = d).
  { destruct d as [v r].
    destruct w, b; simpl; try reflexivity;
      unfold primSetGroup, primSetPower, primSetChannel, ignoredArgument in *; simpl in *.
    all: destruct (Z.ltb_spec 0 (argCount args)) as [Hargs | Hargs]; simpl;
      [| reflexivity].
    all: destruct (isInt (arg args 0)) eqn:Hint; simpl; [| reflexivity].
    all: unfold onRadio, setGroup, setPower, setChannel; simpl.
    all: destruct Hbad as [H0 | [Hni | [Hneg | Hbig]]]; try lia; try discriminate.
    all: try (destruct (Z.ltb_spec (obj2int (arg args 0)) 0); [reflexivity | lia]).
    all: destruct (Z.ltb_spec (obj2int (arg args 0)) 0); [reflexivity |]; simpl.
    all: match goal with
         | |- context [?k <? obj2int ?a] =>
             destruct (Z.ltb_spec k (obj2int a)); [reflexivity | lia]
         end. }
  rewrite Hsame. repeat split.
Qed.

Lemma radio_setting_ignores_bad_argument_witness :
  (primSetChannel MicroBit [int2obj 84] deviceWithHi).2 = deviceWithHi.
Proof.
  apply (radio_setting_ignores_bad_argument Channel MicroBit [int2obj 84] deviceWithHi).
  right. right. right. vm_compute. reflexivity.
Defined.

(** A valid group is written to PREFIX0. *)
Lemma setGroup_valid (g : Z) (r : radio) :
  0 ≤ g ≤ 255 → getReg "PREFIX0" (setGroup g r) = g.
Proof.
  intros Hg. unfold setGroup.
  destruct (Z.ltb_spec g 0); [lia |]. destruct (Z.ltb_spec 255 g); [lia |]. simpl.
  unfold getReg, setReg. simpl. rewrite lookup_insert_eq. simpl.
  unfold wrapU32. apply Z.mod_small. lia.
Qed.

End RadioSettings.
